(** * Auto/Electronics text mining notebook: tokenizers, vectorizer, weighting

  A shallow embedding of [Auto_Electronics_Text_Mining.ipynb].  The notebook
  loads a zip archive twice, tokenizes every document with one of two
  callables ([SimpleTokenizer], [LemmaTokenizer]), counts terms with
  [CountVectorizer], weights them with [TfidfTransformer], reduces with
  [TruncatedSVD] followed by [Normalizer], splits, and fits a random forest.

  Documents are decoded with [encoding='latin1'], so a Python [str] of the
  pipeline is a sequence of code points below 256: a Rocq [string], one
  [ascii] per code point. *)

From Stdlib Require Import Ascii String.
From Stdlib Require Import List Bool Arith Lia.
From Stdlib Require Import Reals Lra.
Import ListNotations.

Open Scope string_scope.
Open Scope bool_scope.
Open Scope list_scope.
Open Scope nat_scope.

(** ** Python [str] on Latin-1 code points *)

Module PyStr.

Definition code (c : ascii) : nat := nat_of_ascii c.

Definition between (lo hi n : nat) : bool := (lo <=? n) && (n <=? hi).

(** [c.isalpha()] for one code point below 256: the Unicode letter
    categories there are A-Z, a-z, U+00AA, U+00B5, U+00BA, U+00C0-U+00D6,
    U+00D8-U+00F6 and U+00F8-U+00FF. *)
Definition isalpha_char (c : ascii) : bool :=
  let n := code c in
  between 65 90 n || between 97 122 n
  || (n =? 170) || (n =? 181) || (n =? 186)
  || between 192 214 n || between 216 246 n || between 248 255 n.

(** [c.lower()] for one code point below 256: A-Z, U+00C0-U+00D6 and
    U+00D8-U+00DE move up by 32, everything else is unchanged. *)
Definition lower_char (c : ascii) : ascii :=
  let n := code c in
  if between 65 90 n || between 192 214 n || between 216 222 n
  then ascii_of_nat (n + 32) else c.

Definition chars (s : string) : list ascii := list_ascii_of_string s.
Definition str (l : list ascii) : string := string_of_list_ascii l.

(** [s.isalpha()]: every character is a letter and there is at least one. *)
Definition isalpha (s : string) : bool :=
  match chars s with
  | [] => false
  | l => forallb isalpha_char l
  end.

(** [s.lower()] *)
Definition lower (s : string) : string := str (map lower_char (chars s)).

Definition list_eqb (a b : list ascii) : bool :=
  if list_eq_dec ascii_dec a b then true else false.

(** [w.endswith(s)] *)
Definition endswith (w s : list ascii) : bool :=
  (length s <=? length w) && list_eqb (skipn (length w - length s) w) s.

(** [w.startswith(s)] *)
Definition startswith (w s : list ascii) : bool :=
  list_eqb (firstn (length s) w) s.

(** [w[:-n]] for a positive [n]: empty when [n] reaches the length. *)
Definition drop_last (n : nat) (w : list ascii) : list ascii :=
  firstn (length w - n) w.

(** [w[-k]] for a positive [k]; [None] stands for Python's [IndexError]. *)
Definition at_back (k : nat) (w : list ascii) : option ascii :=
  if (1 <=? k) && (k <=? length w) then nth_error w (length w - k) else None.

(** [needle in haystack] on strings. *)
Fixpoint contains (needle haystack : list ascii) : bool :=
  startswith haystack needle
  || match haystack with
     | [] => false
     | _ :: rest => contains needle rest
     end.

(** [s in collection] for a collection of strings. *)
Definition mem (s : string) (l : list string) : bool :=
  existsb (String.eqb s) l.

End PyStr.

Import PyStr.

(** ** The archive and the two loading loops *)

Module Archive.

(** A [ZipInfo] entry with the bytes [ZipFile.read] returns for it. *)
Record ZipInfo : Type := mkZipInfo {
  filename : string;
  content : string
}.

(** [ZipInfo.is_dir()] of the notebook's interpreter (Python 3.11):
    [return self.filename[-1] == '/'].  On an empty member name the index
    raises [IndexError], which is [None] here. *)
Definition is_dir (info : ZipInfo) : option bool :=
  match at_back 1 (chars (filename info)) with
  | Some c => Some (Ascii.eqb c "/"%char)
  | None => None
  end.

(** The loop state of a loading cell: the corpus and the label list, both
    grown by [append]. *)
Record loaded : Type := mkLoaded {
  corpus_of : list string;
  label_of : list nat
}.

(** One iteration of the first cell's loop:
    [if info.is_dir(): continue];
    [ns_label.append(1 if 'rec.autos' in info.filename else 0)];
    [ns_corpus.append(rawData.read(info))].
    An exception of [is_dir] leaves the cell: the result is [None]. *)
Definition ns_step (st : loaded) (info : ZipInfo) : option loaded :=
  match is_dir info with
  | None => None
  | Some true => Some st
  | Some false =>
      let ns_label := label_of st ++
        [if contains (chars "rec.autos") (chars (filename info)) then 1 else 0] in
      let ns_corpus := corpus_of st ++ [content info] in
      Some (mkLoaded ns_corpus ns_label)
  end.

(** The [for info in rawData.infolist()] loop from a given state. *)
Fixpoint ns_loop (st : loaded) (infolist : list ZipInfo) : option loaded :=
  match infolist with
  | [] => Some st
  | info :: rest =>
      match ns_step st info with
      | Some st' => ns_loop st' rest
      | None => None
      end
  end.

(** The first cell: [ns_corpus = []], [ns_label = []], then the loop. *)
Definition load_ns (infolist : list ZipInfo) : option loaded :=
  ns_loop (mkLoaded [] []) infolist.

(** One iteration of the second cell's loop, on [label] and [corpus]; the
    label is appended before the document is read, as in the cell. *)
Definition st_step (corpus : list string) (label : list nat) (info : ZipInfo)
  : option (list string * list nat) :=
  match is_dir info with
  | None => None
  | Some true => Some (corpus, label)
  | Some false =>
      let label' := label ++
        [if contains (chars "rec.autos") (chars (filename info)) then 1 else 0] in
      Some (corpus ++ [content info], label')
  end.

(** The second cell, written as the recursion over the remaining entries. *)
Fixpoint load_st_from (corpus : list string) (label : list nat)
  (infolist : list ZipInfo) : option (list string * list nat) :=
  match infolist with
  | [] => Some (corpus, label)
  | info :: rest =>
      match st_step corpus label info with
      | Some (corpus', label') => load_st_from corpus' label' rest
      | None => None
      end
  end.

Definition load_st (infolist : list ZipInfo) : option (list string * list nat) :=
  load_st_from [] [] infolist.

(** The four names the later cells read; [None] when the cell that binds
    them stopped with an exception. *)
Definition ns_corpus (a : list ZipInfo) : option (list string) :=
  option_map corpus_of (load_ns a).
Definition ns_label (a : list ZipInfo) : option (list nat) :=
  option_map label_of (load_ns a).
Definition corpus (a : list ZipInfo) : option (list string) :=
  option_map fst (load_st a).
Definition label (a : list ZipInfo) : option (list nat) :=
  option_map snd (load_st a).

End Archive.

(** ** [train_test_split] *)

Module Split.

(** [_validate_shuffle_split] for [test_size = 0.4] and no [train_size]:
    [n_test = ceil(test_size * n_samples)], in exact arithmetic, and
    [n_train = n_samples - n_test]. *)
Definition n_test (n_samples : nat) : nat := (2 * n_samples + 4) / 5.
Definition n_train (n_samples : nat) : nat := n_samples - n_test n_samples.

(** [_safe_indexing(a, indices)]: the rows of [a] at [indices], in that order;
    an index out of range raises, which is [None] here. *)
Fixpoint take_rows {A : Type} (a : list A) (indices : list nat) : option (list A) :=
  match indices with
  | [] => Some []
  | i :: rest =>
      match nth_error a i, take_rows a rest with
      | Some x, Some xs => Some (x :: xs)
      | _, _ => None
      end
  end.

Record split (A B : Type) : Type := mkSplit {
  Xtrain : list A; Xtest : list A; ytrain : list B; ytest : list B
}.
Arguments mkSplit {A B}.
Arguments Xtrain {A B}.
Arguments Xtest {A B}.
Arguments ytrain {A B}.
Arguments ytest {A B}.

Section WithPermutation.

(** The shuffled index order [rng.permutation(n_samples)] drawn from
    [random_state=10] is the generator's business: it is a parameter. *)
Variable permutation : nat -> list nat.

(** [ind_test = permutation[:n_test]] and
    [ind_train = permutation[n_test:n_test + n_train]] of [ShuffleSplit]. *)
Definition ind_test (n : nat) : list nat := firstn (n_test n) (permutation n).
Definition ind_train (n : nat) : list nat :=
  firstn (n_train n) (skipn (n_test n) (permutation n)).

(** [train_test_split(X, y, test_size=0.4, random_state=10)].  The
    [ValueError]s are [None]: [check_consistent_length] when the lengths
    differ, and [_validate_shuffle_split] when the train part would be empty
    ([n_train == 0], which is the case for no sample and for one).  Then both
    arrays are indexed by the train and the test indices. *)
Definition train_test_split {A B : Type} (X : list A) (y : list B)
  : option (split A B) :=
  if negb (length X =? length y) then None
  else
    let n := length X in
    if n_train n =? 0 then None
    else
      match take_rows X (ind_train n), take_rows X (ind_test n),
            take_rows y (ind_train n), take_rows y (ind_test n) with
      | Some xtr, Some xte, Some ytr, Some yte => Some (mkSplit xtr xte ytr yte)
      | _, _, _, _ => None
      end.

End WithPermutation.

End Split.

(** ** [nltk.stem.snowball.EnglishStemmer] *)

Module Snowball.

Definition in_chars (c : ascii) (s : string) : bool :=
  existsb (Ascii.eqb c) (chars s).

(** [__vowels = "aeiouy"] *)
Definition vowel (c : ascii) : bool := in_chars c "aeiouy".

(** The word and its two regions, updated together by every step. *)
Record regions : Type := mkRegions {
  word : list ascii;
  r1 : list ascii;
  r2 : list ascii
}.

(** [word = word[:-k]], [r1 = r1[:-k]], [r2 = r2[:-k]] *)
Definition cut (k : nat) (st : regions) : regions :=
  mkRegions (drop_last k (word st)) (drop_last k (r1 st)) (drop_last k (r2 st)).

(** [suffix_replace(original, old, new)]: [original[:-len(old)] + new] *)
Definition suffix_replace (original old new : list ascii) : list ascii :=
  drop_last (length old) original ++ new.

(** A region under a replacement: replaced when it is at least as long as
    the suffix, else set to [fallback]. *)
Definition region_replace (r old new fallback : list ascii) : list ascii :=
  if length old <=? length r then suffix_replace r old new else fallback.

(** The replacement of a suffix in the word and in both regions, with the
    value [r2] takes when it is shorter than the suffix. *)
Definition replace (old new r2_fallback : string) (st : regions) : regions :=
  mkRegions (suffix_replace (word st) (chars old) (chars new))
            (region_replace (r1 st) (chars old) (chars new) [])
            (region_replace (r2 st) (chars old) (chars new) (chars r2_fallback)).

(** The first suffix of the tuple the word ends with: the
    [for suffix in ...: if word.endswith(suffix): ... break] header. *)
Definition first_suffix (suffixes : list string) (w : list ascii)
  : option string :=
  find (fun s => endswith w (chars s)) suffixes.

Definition eq_str (a b : string) : bool := String.eqb a b.

Definition one_of (s : string) (l : list string) : bool := mem s l.

(** The loop of [_r1r2_standard] over [range(1, len(word))]: the part after
    the first non-vowel that follows a vowel, or the empty string. *)
Fixpoint after_vowel_nonvowel (prev : ascii) (rest : list ascii) : list ascii :=
  match rest with
  | [] => []
  | c :: rest' =>
      if negb (vowel c) && vowel prev then rest'
      else after_vowel_nonvowel c rest'
  end.

Definition region (w : list ascii) : list ascii :=
  match w with
  | [] => []
  | c :: rest => after_vowel_nonvowel c rest
  end.

(** The scan that turns a [y] after a vowel into [Y]; it reads the word as
    already rewritten, so a [Y] just written is no vowel for the next
    letter. *)
Fixpoint mark_y (prev : ascii) (rest : list ascii) : list ascii :=
  match rest with
  | [] => []
  | c :: rest' =>
      let c' := if vowel prev && Ascii.eqb c "y" then "Y"%char else c in
      c' :: mark_y c' rest'
  end.

Definition mark_consonant_y (w : list ascii) : list ascii :=
  let w1 := if startswith w (chars "y") then chars "Y" ++ skipn 1 w else w in
  match w1 with
  | [] => []
  | c :: rest => c :: mark_y c rest
  end.

Definition special_words : list (string * string) :=
  [("skis", "ski"); ("skies", "sky"); ("dying", "die"); ("lying", "lie");
   ("tying", "tie"); ("idly", "idl"); ("gently", "gentl"); ("ugly", "ugli");
   ("early", "earli"); ("only", "onli"); ("singly", "singl");
   ("sky", "sky"); ("news", "news"); ("howe", "howe"); ("atlas", "atlas");
   ("cosmos", "cosmos"); ("bias", "bias"); ("andes", "andes");
   ("inning", "inning"); ("innings", "inning");
   ("outing", "outing"); ("outings", "outing");
   ("canning", "canning"); ("cannings", "canning");
   ("herring", "herring"); ("herrings", "herring");
   ("earring", "earring"); ("earrings", "earring");
   ("proceed", "proceed"); ("proceeds", "proceed");
   ("proceeded", "proceed"); ("proceeding", "proceed");
   ("exceed", "exceed"); ("exceeds", "exceed");
   ("exceeded", "exceed"); ("exceeding", "exceed");
   ("succeed", "succeed"); ("succeeds", "succeed");
   ("succeeded", "succeed"); ("succeeding", "succeed")].

Fixpoint lookup (k : string) (d : list (string * string)) : option string :=
  match d with
  | [] => None
  | (k', v) :: rest => if String.eqb k k' then Some v else lookup k rest
  end.

Definition step0_suffixes : list string := ["'s'"; "'s"; "'"].
Definition step1a_suffixes : list string :=
  ["sses"; "ied"; "ies"; "us"; "ss"; "s"].
Definition step1b_suffixes : list string :=
  ["eedly"; "ingly"; "edly"; "eed"; "ing"; "ed"].
Definition step2_suffixes : list string :=
  ["ization"; "ational"; "fulness"; "ousness"; "iveness"; "tional";
   "biliti"; "lessli"; "entli"; "ation"; "alism"; "aliti"; "ousli";
   "iviti"; "fulli"; "enci"; "anci"; "abli"; "izer"; "ator"; "alli";
   "bli"; "ogi"; "li"].
Definition step3_suffixes : list string :=
  ["ational"; "tional"; "alize"; "icate"; "iciti"; "ative"; "ical";
   "ness"; "ful"].
Definition step4_suffixes : list string :=
  ["ement"; "ance"; "ence"; "able"; "ible"; "ment"; "ant"; "ent"; "ism";
   "ate"; "iti"; "ous"; "ive"; "ize"; "ion"; "al"; "er"; "ic"].
Definition double_consonants : list string :=
  ["bb"; "dd"; "ff"; "gg"; "mm"; "nn"; "pp"; "rr"; "tt"].
Definition li_ending : string := "cdeghkmnrt".

(** [word[-k] in s] and [word[-k] not in s]; [None] is the [IndexError]. *)
Definition back_in (k : nat) (w : list ascii) (s : string) : option bool :=
  option_map (fun c => in_chars c s) (at_back k w).

Definition step0 (st : regions) : regions :=
  match first_suffix step0_suffixes (word st) with
  | Some suffix => cut (String.length suffix) st
  | None => st
  end.

Definition step1a (st : regions) : regions :=
  match first_suffix step1a_suffixes (word st) with
  | Some suffix =>
      if eq_str suffix "sses" then cut 2 st
      else if one_of suffix ["ied"; "ies"] then
        if 1 <? length (drop_last (String.length suffix) (word st))
        then cut 2 st else cut 1 st
      else if eq_str suffix "s" then
        if existsb vowel (drop_last 2 (word st)) then cut 1 st else st
      else st
  | None => st
  end.

(** The two-part condition of step 1b under which an [e] is put back; the
    indices are read only behind the length tests, as [and] does. *)
Definition short_word (st : regions) : option bool :=
  let w := word st in
  let long :=
    if list_eqb (r1 st) [] && (3 <=? length w) then
      match at_back 1 w, at_back 2 w, at_back 3 w with
      | Some c1, Some c2, Some c3 =>
          Some (negb (vowel c1) && negb (in_chars c1 "wxY")
                && vowel c2 && negb (vowel c3))
      | _, _, _ => None
      end
    else Some false in
  match long with
  | None => None
  | Some true => Some true
  | Some false =>
      if list_eqb (r1 st) [] && (length w =? 2) then
        match nth_error w 0, nth_error w 1 with
        | Some c0, Some c1 => Some (vowel c0 && negb (vowel c1))
        | _, _ => None
        end
      else Some false
  end.

Definition append_e (r : list ascii) : list ascii := r ++ chars "e".

Definition step1b (st : regions) : option regions :=
  match first_suffix step1b_suffixes (word st) with
  | Some suffix =>
      if one_of suffix ["eed"; "eedly"] then
        if endswith (r1 st) (chars suffix)
        then Some (replace suffix "ee" "" st) else Some st
      else if existsb vowel (drop_last (String.length suffix) (word st)) then
        let st1 := cut (String.length suffix) st in
        if existsb (fun s => endswith (word st1) (chars s)) ["at"; "bl"; "iz"]
        then
          let word' := append_e (word st1) in
          let r1' := append_e (r1 st1) in
          let r2' := if (5 <? length word') || (3 <=? length r1')
                     then append_e (r2 st1) else r2 st1 in
          Some (mkRegions word' r1' r2')
        else if existsb (fun s => endswith (word st1) (chars s))
                        double_consonants
        then Some (cut 1 st1)
        else
          match short_word st1 with
          | None => None
          | Some true =>
              Some (mkRegions
                      (append_e (word st1))
                      (if 0 <? length (r1 st1) then append_e (r1 st1)
                       else r1 st1)
                      (if 0 <? length (r2 st1) then append_e (r2 st1)
                       else r2 st1))
          | Some false => Some st1
          end
      else Some st
  | None => Some st
  end.

(** [r[:-1] + c] when the region is not empty, else the empty string. *)
Definition set_last (c : string) (r : list ascii) : list ascii :=
  if 1 <=? length r then drop_last 1 r ++ chars c else [].

Definition step1c (st : regions) : option regions :=
  let w := word st in
  if 2 <? length w then
    match back_in 1 w "yY" with
    | None => None
    | Some false => Some st
    | Some true =>
        match at_back 2 w with
        | None => None
        | Some c =>
            if negb (vowel c)
            then Some (mkRegions (drop_last 1 w ++ chars "i")
                                 (set_last "i" (r1 st)) (set_last "i" (r2 st)))
            else Some st
        end
    end
  else Some st.

Definition step2 (st : regions) : option regions :=
  match first_suffix step2_suffixes (word st) with
  | Some suffix =>
      if endswith (r1 st) (chars suffix) then
        if eq_str suffix "tional" then Some (cut 2 st)
        else if one_of suffix ["enci"; "anci"; "abli"] then
          Some (mkRegions (drop_last 1 (word st) ++ chars "e")
                          (set_last "e" (r1 st)) (set_last "e" (r2 st)))
        else if eq_str suffix "entli" then Some (cut 2 st)
        else if one_of suffix ["izer"; "ization"] then
          Some (replace suffix "ize" "" st)
        else if one_of suffix ["ational"; "ation"; "ator"] then
          Some (replace suffix "ate" "e" st)
        else if one_of suffix ["alism"; "aliti"; "alli"] then
          Some (replace suffix "al" "" st)
        else if eq_str suffix "fulness" then Some (cut 4 st)
        else if one_of suffix ["ousli"; "ousness"] then
          Some (replace suffix "ous" "" st)
        else if one_of suffix ["iveness"; "iviti"] then
          Some (replace suffix "ive" "e" st)
        else if one_of suffix ["biliti"; "bli"] then
          Some (replace suffix "ble" "" st)
        else if eq_str suffix "ogi" then
          match back_in 4 (word st) "l" with
          | None => None
          | Some true => Some (cut 1 st)
          | Some false => Some st
          end
        else if one_of suffix ["fulli"; "lessli"] then Some (cut 2 st)
        else if eq_str suffix "li" then
          match back_in 3 (word st) li_ending with
          | None => None
          | Some true => Some (cut 2 st)
          | Some false => Some st
          end
        else Some st
      else Some st
  | None => Some st
  end.

Definition step3 (st : regions) : regions :=
  match first_suffix step3_suffixes (word st) with
  | Some suffix =>
      if endswith (r1 st) (chars suffix) then
        if eq_str suffix "tional" then cut 2 st
        else if eq_str suffix "ational" then replace suffix "ate" "" st
        else if eq_str suffix "alize" then cut 3 st
        else if one_of suffix ["icate"; "iciti"; "ical"] then
          replace suffix "ic" "" st
        else if one_of suffix ["ful"; "ness"] then
          cut (String.length suffix) st
        else if eq_str suffix "ative" && endswith (r2 st) (chars suffix) then
          cut 5 st
        else st
      else st
  | None => st
  end.

Definition step4 (st : regions) : option regions :=
  match first_suffix step4_suffixes (word st) with
  | Some suffix =>
      if endswith (r2 st) (chars suffix) then
        if eq_str suffix "ion" then
          match back_in 4 (word st) "st" with
          | None => None
          | Some true => Some (cut 3 st)
          | Some false => Some st
          end
        else Some (cut (String.length suffix) st)
      else Some st
  | None => Some st
  end.

(** Step 5 changes the word only; the regions are not read again. *)
Definition step5 (st : regions) : option (list ascii) :=
  let w := word st in
  let l_branch :=
    if endswith (r2 st) (chars "l") then back_in 2 w "l" else Some false in
  match l_branch with
  | None => None
  | Some true => Some (drop_last 1 w)
  | Some false =>
      if endswith (r2 st) (chars "e") then Some (drop_last 1 w)
      else if endswith (r1 st) (chars "e") then
        if 4 <=? length w then
          match at_back 2 w, at_back 3 w, at_back 4 w with
          | Some c2, Some c3, Some c4 =>
              if vowel c2 || in_chars c2 "wxY" || negb (vowel c3) || vowel c4
              then Some (drop_last 1 w) else Some w
          | _, _, _ => None
          end
        else Some w
      else Some w
  end.

(** The regions before step 0: for the prefixes [gener], [commun] and
    [arsen] the first region starts after the prefix, otherwise
    [_r1r2_standard]. *)
Definition initial_regions (w : list ascii) : regions :=
  if existsb (fun p => startswith w (chars p)) ["gener"; "commun"; "arsen"]
  then
    let r1 := if existsb (fun p => startswith w (chars p)) ["gener"; "arsen"]
              then skipn 5 w else skipn 6 w in
    mkRegions w r1 (region r1)
  else
    mkRegions w (region w) (region (region w)).

(** [word.replace("Y", "y")] *)
Definition restore_y (w : list ascii) : list ascii :=
  map (fun c => if Ascii.eqb c "Y" then "y"%char else c) w.

(** [EnglishStemmer().stem(word)] with the default [ignore_stopwords=False]
    (the stemmer's own stop-word set is empty); [None] is an [IndexError].
    The three [replace] calls on typographic apostrophes look for code points
    above 255 and change nothing in a Latin-1 string. *)
Definition stem (token : string) : option string :=
  let word := lower token in
  if String.length word <=? 2 then Some word
  else
    match lookup word special_words with
    | Some s => Some s
    | None =>
        let w := chars word in
        let w := if startswith w (chars "'") then skipn 1 w else w in
        let w := mark_consonant_y w in
        let st := step1a (step0 (initial_regions w)) in
        match step1b st with
        | None => None
        | Some st =>
        match step1c st with
        | None => None
        | Some st =>
        match step2 st with
        | None => None
        | Some st =>
        match step4 (step3 st) with
        | None => None
        | Some st =>
        match step5 st with
        | None => None
        | Some w => Some (str (restore_y w))
        end end end end end
    end.

End Snowball.

(** ** The two tokenizer callables *)

Module Tokenizers.

(** A list comprehension whose element expression may raise: the elements
    are computed in order and the first exception leaves it. *)
Fixpoint map_exn {A B : Type} (f : A -> option B) (l : list A)
  : option (list B) :=
  match l with
  | [] => Some []
  | x :: rest =>
      match f x with
      | None => None
      | Some y =>
          match map_exn f rest with
          | None => None
          | Some ys => Some (y :: ys)
          end
      end
  end.

Section WithLibraries.

(** [nltk.word_tokenize], the stemmer's [stem] and the stop-word list the
    callables are built with. *)
Variable word_tokenize : string -> list string.
Variable stem : string -> option string.
Variable stopWords : list string.

(** [SimpleTokenizer.__call__]:
    [[t for t in word_tokenize(doc)
      if t.isalpha() and t.lower() not in self.stopWords]]. *)
Definition SimpleTokenizer (doc : string) : list string :=
  filter (fun t => isalpha t && negb (mem (lower t) stopWords))
         (word_tokenize doc).

(** [LemmaTokenizer.__call__]:
    [[self.stemmer.stem(t) for t in word_tokenize(doc)
      if t.isalpha() and t not in self.stopWords]]. *)
Definition LemmaTokenizer (doc : string) : option (list string) :=
  map_exn stem
      (filter (fun t => isalpha t && negb (mem t stopWords))
              (word_tokenize doc)).

End WithLibraries.

End Tokenizers.

(** ** [CountVectorizer(tokenizer=..., encoding='latin1')] *)

Module CountVectorizer.

(** [sorted] on strings: insertion by code point order. *)
Definition str_leb (a b : string) : bool :=
  match String.compare a b with
  | Gt => false
  | _ => true
  end.

Fixpoint insert_sorted (x : string) (l : list string) : list string :=
  match l with
  | [] => [x]
  | y :: rest => if str_leb x y then x :: l else y :: insert_sorted x rest
  end.

Definition sorted (l : list string) : list string :=
  fold_right insert_sorted [] l.

(** [build_analyzer] with the defaults [lowercase=True], [analyzer='word'],
    [ngram_range=(1, 1)], [stop_words=None]: decode (one code point per byte
    under latin1, the identity here), lowercase the document, then call the
    custom tokenizer, whose exception is the analyzer's. *)
Definition analyze (tokenizer : string -> option (list string)) (doc : string)
  : option (list string) :=
  tokenizer (lower doc).

(** The pass of [_count_vocab] over the documents: the features of each. *)
Definition analyzed (tokenizer : string -> option (list string))
  (raw_documents : list string) : option (list (list string)) :=
  Tokenizers.map_exn (analyze tokenizer) raw_documents.

Definition str_eq_dec : forall a b : string, {a = b} + {a <> b} :=
  string_dec.

(** The vocabulary of the analyzed documents: the distinct features, sorted;
    [ValueError("empty vocabulary ...")] is [None]. *)
Definition vocabulary_of (features : list (list string))
  : option (list string) :=
  match nodup str_eq_dec (concat features) with
  | [] => None
  | v => Some (sorted v)
  end.

(** The row of counts of one analyzed document over a vocabulary. *)
Definition count_row (vocabulary : list string) (features : list string)
  : list nat :=
  map (fun term => count_occ str_eq_dec features term) vocabulary.

(** [fit_transform]: the vocabulary and the document-term count matrix, or
    [None] when the tokenizer raised or the vocabulary is empty. *)
Definition fit_transform (tokenizer : string -> option (list string))
  (raw_documents : list string) : option (list string * list (list nat)) :=
  match analyzed tokenizer raw_documents with
  | None => None
  | Some features =>
      match vocabulary_of features with
      | None => None
      | Some v => Some (v, map (count_row v) features)
      end
  end.

(** [vocabulary_] after the fit. *)
Definition vocabulary_ (tokenizer : string -> option (list string))
  (raw_documents : list string) : option (list string) :=
  option_map fst (fit_transform tokenizer raw_documents).

(** The two vectorizers of the notebook: [ns_preprocessor] with the
    [SimpleTokenizer], which raises nothing, and [preprocessor] with the
    [LemmaTokenizer]. *)
Definition ns_preprocessor (word_tokenize : string -> list string)
  (stopWords : list string) : string -> option (list string) :=
  fun doc => Some (Tokenizers.SimpleTokenizer word_tokenize stopWords doc).

Definition preprocessor (word_tokenize : string -> list string)
  (stem : string -> option string) (stopWords : list string)
  : string -> option (list string) :=
  Tokenizers.LemmaTokenizer word_tokenize stem stopWords.

End CountVectorizer.

(** ** [TfidfTransformer()] and [Normalizer(copy=False)], in exact arithmetic *)

Module Tfidf.

Local Open Scope R_scope.

(** [_document_frequency]: the number of documents with a non-zero count in
    column [j]. *)
Definition df (X : list (list nat)) (j : nat) : nat :=
  length (filter (fun row => (0 <? nth j row 0)%nat) X).

(** [fit] with the defaults [use_idf=True], [smooth_idf=True]: one is added
    to the document count and to every document frequency, and
    [idf = log(n_samples / df) + 1]. *)
Definition idf (n_samples d : nat) : R :=
  ln ((1 + INR n_samples) / (1 + INR d)) + 1.

Definition idf_ (X : list (list nat)) (n_features : nat) : list R :=
  map (fun j => idf (length X) (df X j)) (seq 0 n_features).

(** [X * idf_diag] on one row, with [sublinear_tf=False]: every count is
    multiplied by the idf of its column. *)
Fixpoint weight (row : list nat) (idfs : list R) : list R :=
  match row, idfs with
  | c :: row', i :: idfs' => INR c * i :: weight row' idfs'
  | _, _ => []
  end.

Definition sumsq (row : list R) : R :=
  fold_right (fun x acc => x * x + acc) 0 row.

Definition norm (row : list R) : R := sqrt (sumsq row).

(** [normalize(X, norm='l2')] on one row: a zero norm is replaced by one
    ([_handle_zeros_in_scale]), so a zero row is left as it is. *)
Definition normalize_row (row : list R) : list R :=
  let n := norm row in
  if Req_dec_T n 0 then row else map (fun x => x / n) row.

(** [TfidfTransformer().fit_transform(X)] for a count matrix of
    [n_features] columns. *)
Definition fit_transform (X : list (list nat)) (n_features : nat)
  : list (list R) :=
  map (fun row => normalize_row (weight row (idf_ X n_features))) X.





End Tfidf.
(** * Properties *)

(** ** The two loading passes *)

Section LoadingPasses.

Import Archive.

Lemma load_st_from_spec : forall a c l,
  load_st_from c l a =
  option_map (fun st => (corpus_of st, label_of st)) (ns_loop (mkLoaded c l) a).
Proof.
  induction a as [|info rest IH]; intros c l; simpl.
  - reflexivity.
  - unfold st_step, ns_step. destruct (is_dir info) as [[|]|]; simpl.
    + apply IH.
    + apply IH.
    + reflexivity.
Qed.

Lemma loaded_lengths : forall a st st',
  length (corpus_of st) = length (label_of st) ->
  ns_loop st a = Some st' ->
  length (corpus_of st') = length (label_of st').
Proof.
  induction a as [|info rest IH]; intros st st' H E; simpl in E.
  - inversion E; subst; exact H.
  - unfold ns_step in E. destruct (is_dir info) as [[|]|]; try discriminate.
    + eapply IH; eauto.
    + eapply IH; [|exact E]. simpl. rewrite !length_app. simpl. lia.
Qed.

Lemma ns_label_is_label : forall a, ns_label a = label a.
Proof.
  intros a. unfold ns_label, label, load_st, load_ns.
  rewrite load_st_from_spec. destruct (ns_loop _ a); reflexivity.
Qed.

Lemma ns_corpus_is_corpus : forall a, ns_corpus a = corpus a.
Proof.
  intros a. unfold ns_corpus, corpus, load_st, load_ns.
  rewrite load_st_from_spec. destruct (ns_loop _ a); reflexivity.
Qed.

End LoadingPasses.

(** What a successful split holds: the train and the test parts are the rows
    and the labels at the same index lists. *)
Lemma train_test_split_rows :
  forall (A B : Type) (permutation : nat -> list nat)
         (X : list A) (y : list B) (s : Split.split A B),
    Split.train_test_split permutation X y = Some s ->
    length X = length y /\
    Split.n_train (length X) <> 0 /\
    Split.take_rows X (Split.ind_train permutation (length X)) = Some (Split.Xtrain s) /\
    Split.take_rows y (Split.ind_train permutation (length X)) = Some (Split.ytrain s) /\
    Split.take_rows X (Split.ind_test permutation (length X)) = Some (Split.Xtest s) /\
    Split.take_rows y (Split.ind_test permutation (length X)) = Some (Split.ytest s).
Proof.
  intros A B permutation X y s. unfold Split.train_test_split.
  destruct (Nat.eqb_spec (length X) (length y)) as [El|]; simpl; [|discriminate].
  destruct (Nat.eqb_spec (Split.n_train (length X)) 0) as [|Hn]; [discriminate|].
  destruct (Split.take_rows X (Split.ind_train permutation (length X))); [|discriminate].
  destruct (Split.take_rows X (Split.ind_test permutation (length X)));
    [|discriminate].
  destruct (Split.take_rows y (Split.ind_train permutation (length X)));
    [|discriminate].
  destruct (Split.take_rows y (Split.ind_test permutation (length X)));
    [|discriminate].
  intros E. inversion E; subst; simpl. repeat split; auto.
Qed.

(** C10. The two loading loops walk the same archive entries in the same
    order with the same labelling rule, so [ns_label] and [label] are equal,
    and so are the corpora (both cells stop with the same exception on the
    same entry, or both bind lists of one length).  Consequently, when the
    non-stemmed cell's [train_test_split(lsa_tfidf, label, ...)] returns, its
    train rows and train labels are the feature rows and the entries of
    [ns_label] at the same shuffled train indices, likewise for the test
    part, and the call with [ns_label] returns the same split. *)
Theorem C10_label_vectors_agree :
  forall (a : list Archive.ZipInfo),
    Archive.ns_label a = Archive.label a /\
    Archive.ns_corpus a = Archive.corpus a /\
    (forall c l, Archive.ns_corpus a = Some c -> Archive.label a = Some l ->
       length l = length c) /\
    forall (A : Type) (permutation : nat -> list nat) (lsa_tfidf : list A)
           (label ns_label : list nat) (s : Split.split A nat),
      Archive.label a = Some label ->
      Archive.ns_label a = Some ns_label ->
      Split.train_test_split permutation lsa_tfidf label = Some s ->
      Split.train_test_split permutation lsa_tfidf ns_label = Some s /\
      Split.take_rows lsa_tfidf
        (Split.ind_train permutation (length lsa_tfidf)) = Some (Split.Xtrain s) /\
      Split.take_rows ns_label
        (Split.ind_train permutation (length lsa_tfidf)) = Some (Split.ytrain s) /\
      Split.take_rows lsa_tfidf
        (Split.ind_test permutation (length lsa_tfidf)) = Some (Split.Xtest s) /\
      Split.take_rows ns_label
        (Split.ind_test permutation (length lsa_tfidf)) = Some (Split.ytest s).
Proof.
  intros a.
  pose proof (ns_label_is_label a) as Hl.
  pose proof (ns_corpus_is_corpus a) as Hc.
  split; [exact Hl|]. split; [exact Hc|]. split.
  - intros c l Ec El. rewrite <- Hl in El.
    unfold Archive.ns_corpus, Archive.ns_label, Archive.load_ns in *.
    destruct (Archive.ns_loop _ a) as [st|] eqn:E; simpl in *; [|discriminate].
    inversion Ec; inversion El; subst. symmetry.
    eapply loaded_lengths; [|exact E]. reflexivity.
  - intros A permutation X l l' s El El' Es.
    rewrite Hl, El in El'. inversion El'; subst l'.
    destruct (train_test_split_rows _ _ _ _ _ _ Es) as (_ & _ & H1 & H2 & H3 & H4).
    repeat split; assumption.
Qed.

(** A three-entry archive (a directory, an autos file, an electronics file)
    and a shuffled order on which the split of C10 succeeds. *)
Lemma C10_label_vectors_agree_witness :
  let a := [Archive.mkZipInfo "rec.autos/" "";
            Archive.mkZipInfo "rec.autos/1" "car";
            Archive.mkZipInfo "sci.electronics/2" "volt"] in
  let p := fun _ : nat => [1; 0] in
  let s := Split.mkSplit [7] [8] [1] [0] in
  Archive.label a = Some [1; 0] /\
  Archive.ns_label a = Some [1; 0] /\
  Split.train_test_split p [7; 8] [1; 0] = Some s /\
  Split.take_rows [1; 0] (Split.ind_train p 2) = Some (Split.ytrain s).
Proof.
  intros a p s.
  assert (E1 : Archive.label a = Some [1; 0]) by reflexivity.
  assert (E2 : Archive.ns_label a = Some [1; 0]) by reflexivity.
  assert (E3 : Split.train_test_split p [7; 8] [1; 0] = Some s) by reflexivity.
  split; [exact E1|]. split; [exact E2|]. split; [exact E3|].
  destruct (C10_label_vectors_agree a) as (_ & _ & _ & H).
  destruct (H nat p [7; 8] [1; 0] [1; 0] s E1 E2 E3) as (_ & _ & H2 & _).
  exact H2.
Defined.

(** ** Vocabulary sizes *)

Lemma insert_sorted_length : forall x l,
  length (CountVectorizer.insert_sorted x l) = S (length l).
Proof.
  induction l as [|y rest IH]; simpl.
  - reflexivity.
  - destruct (CountVectorizer.str_leb x y); simpl; [reflexivity|].
    rewrite IH. reflexivity.
Qed.

Lemma sorted_length : forall l, length (CountVectorizer.sorted l) = length l.
Proof.
  induction l as [|x rest IH]; simpl.
  - reflexivity.
  - rewrite insert_sorted_length, IH. reflexivity.
Qed.

Lemma nodup_map_length : forall (f : string -> string) (l : list string),
  length (nodup CountVectorizer.str_eq_dec (map f l)) <=
  length (nodup CountVectorizer.str_eq_dec l).
Proof.
  intros f l.
  rewrite <- (length_map f (nodup CountVectorizer.str_eq_dec l)).
  apply NoDup_incl_length.
  - apply NoDup_nodup.
  - intros x Hx. apply nodup_In in Hx. apply in_map_iff in Hx.
    destruct Hx as (y & Hy & Hin). apply in_map_iff. exists y. split; auto.
    apply nodup_In. exact Hin.
Qed.

(** A comprehension that returns has applied the function to every
    element. *)
Lemma map_exn_Some : forall (A B : Type) (f : A -> option B) (g : A -> B) l l',
  (forall x y, f x = Some y -> g x = y) ->
  Tokenizers.map_exn f l = Some l' -> l' = map g l.
Proof.
  intros A B f g l. induction l as [|x rest IH]; intros l' Hg E; simpl in E.
  - inversion E. reflexivity.
  - destruct (f x) as [y|] eqn:Ef; [|discriminate].
    destruct (Tokenizers.map_exn f rest) as [ys|] eqn:Er; [|discriminate].
    inversion E; subst. simpl. rewrite (Hg x y Ef).
    f_equal. apply IH; auto.
Qed.

Lemma map_exn_total : forall (A B : Type) (f : A -> option B) l,
  (forall x, In x l -> f x <> None) ->
  exists l', Tokenizers.map_exn f l = Some l'.
Proof.
  intros A B f l. induction l as [|x rest IH]; intros H; simpl.
  - exists []. reflexivity.
  - destruct (f x) as [y|] eqn:Ef.
    + destruct IH as [ys Hys]; [intros z Hz; apply H; right; exact Hz|].
      rewrite Hys. exists (y :: ys). reflexivity.
    + exfalso. apply (H x); [left; reflexivity|exact Ef].
Qed.

Lemma map_exn_pure : forall (A B : Type) (f : A -> B) l,
  Tokenizers.map_exn (fun x => Some (f x)) l = Some (map f l).
Proof.
  intros A B f l. induction l as [|x rest IH]; simpl.
  - reflexivity.
  - rewrite IH. reflexivity.
Qed.

Section LowercasedTokens.

Variable word_tokenize : string -> list string.
Variable stem : string -> option string.
Variable stopWords : list string.

(** The stem where [stem] returns one. *)
Definition stem_of (t : string) : string :=
  match stem t with
  | Some s => s
  | None => t
  end.

Lemma stem_of_spec : forall x y, stem x = Some y -> stem_of x = y.
Proof. intros x y E. unfold stem_of. rewrite E. reflexivity. Qed.

Lemma filters_agree : forall doc,
  (forall t, In t (word_tokenize doc) -> lower t = t) ->
  filter (fun t => isalpha t && negb (mem t stopWords)) (word_tokenize doc) =
  Tokenizers.SimpleTokenizer word_tokenize stopWords doc.
Proof.
  intros doc H. unfold Tokenizers.SimpleTokenizer.
  apply filter_ext_in. intros t Ht. rewrite (H t Ht). reflexivity.
Qed.

Lemma lemma_is_stemmed_simple : forall doc l,
  (forall t, In t (word_tokenize doc) -> lower t = t) ->
  Tokenizers.LemmaTokenizer word_tokenize stem stopWords doc = Some l ->
  l = map stem_of (Tokenizers.SimpleTokenizer word_tokenize stopWords doc).
Proof.
  intros doc l H E. unfold Tokenizers.LemmaTokenizer in E.
  rewrite (filters_agree doc H) in E.
  apply (map_exn_Some _ _ stem); [exact stem_of_spec|exact E].
Qed.

Lemma analyzed_stemmed : forall docs fs,
  (forall doc t, In doc docs -> In t (word_tokenize (lower doc)) -> lower t = t) ->
  CountVectorizer.analyzed
    (CountVectorizer.preprocessor word_tokenize stem stopWords) docs = Some fs ->
  fs = map (map stem_of)
         (map (fun doc => Tokenizers.SimpleTokenizer word_tokenize stopWords
                            (lower doc)) docs).
Proof.
  unfold CountVectorizer.analyzed.
  induction docs as [|d rest IH]; intros fs H E; simpl in E.
  - inversion E. reflexivity.
  - unfold CountVectorizer.analyze at 1 in E.
    unfold CountVectorizer.preprocessor at 1 in E.
    destruct (Tokenizers.LemmaTokenizer word_tokenize stem stopWords (lower d))
      as [l|] eqn:El; [|discriminate].
    destruct (Tokenizers.map_exn _ rest) as [ls|] eqn:Er; [|discriminate].
    inversion E; subst. simpl. f_equal.
    + apply lemma_is_stemmed_simple; [|exact El].
      intros t Ht. apply (H d t); simpl; auto.
    + apply IH; [|reflexivity]. intros doc t Hd Ht. apply (H doc t); simpl; auto.
Qed.

Lemma analyzed_simple : forall docs,
  CountVectorizer.analyzed
    (CountVectorizer.ns_preprocessor word_tokenize stopWords) docs =
  Some (map (fun doc => Tokenizers.SimpleTokenizer word_tokenize stopWords
                          (lower doc)) docs).
Proof.
  intros docs. unfold CountVectorizer.analyzed, CountVectorizer.analyze,
    CountVectorizer.ns_preprocessor.
  apply (map_exn_pure _ _
    (fun doc => Tokenizers.SimpleTokenizer word_tokenize stopWords (lower doc))).
Qed.

End LowercasedTokens.

Lemma vocabulary_of_length : forall fs v,
  CountVectorizer.vocabulary_of fs = Some v ->
  length v = length (nodup CountVectorizer.str_eq_dec (concat fs)) /\
  concat fs <> [].
Proof.
  intros fs v. unfold CountVectorizer.vocabulary_of.
  destruct (nodup CountVectorizer.str_eq_dec (concat fs)) as [|a l] eqn:E;
    [discriminate|].
  intros Ev. injection Ev as <-.
  split; [exact (sorted_length (a :: l))|].
  intros Hc. rewrite Hc in E. discriminate.
Qed.

Lemma vocabulary_of_nonempty : forall fs,
  concat fs <> [] -> exists v, CountVectorizer.vocabulary_of fs = Some v.
Proof.
  intros fs H. unfold CountVectorizer.vocabulary_of.
  destruct (concat fs) as [|x l] eqn:E; [contradiction|].
  destruct (nodup CountVectorizer.str_eq_dec (x :: l)) as [|a v] eqn:Ea.
  - exfalso. assert (Hin : In x (nodup CountVectorizer.str_eq_dec (x :: l))).
    { apply nodup_In. left. reflexivity. }
    rewrite Ea in Hin. exact Hin.
  - eexists. reflexivity.
Qed.

(** C6. For every corpus whose lowercased documents are split by
    [word_tokenize] into tokens that [lower] leaves unchanged (the vectorizer
    lowercases each document before it calls the tokenizer): whenever the fit
    of the stemming vectorizer returns a vocabulary, the fit of the
    non-stemming vectorizer returns one too, and the stemming vocabulary is
    no larger; it is made of the stems of the non-stemming features. *)
Theorem C6_stemmed_vocabulary_no_larger :
  forall (word_tokenize : string -> list string)
         (stem : string -> option string)
         (stopWords : list string) (docs : list string)
         (vocabulary : list string),
    (forall doc t, In doc docs -> In t (word_tokenize (lower doc)) ->
                   lower t = t) ->
    CountVectorizer.vocabulary_
      (CountVectorizer.preprocessor word_tokenize stem stopWords) docs =
      Some vocabulary ->
    exists ns_vocabulary,
      CountVectorizer.vocabulary_
        (CountVectorizer.ns_preprocessor word_tokenize stopWords) docs =
        Some ns_vocabulary /\
      length vocabulary <= length ns_vocabulary.
Proof.
  intros word_tokenize stem stopWords docs v H E.
  unfold CountVectorizer.vocabulary_, CountVectorizer.fit_transform in *.
  rewrite analyzed_simple.
  destruct (CountVectorizer.analyzed
              (CountVectorizer.preprocessor word_tokenize stem stopWords) docs)
    as [fs|] eqn:Ea; [|discriminate].
  apply (analyzed_stemmed word_tokenize stem stopWords docs fs H) in Ea.
  destruct (CountVectorizer.vocabulary_of fs) as [v'|] eqn:Ev; [|discriminate].
  simpl in E. inversion E; subst v'. clear E.
  apply vocabulary_of_length in Ev. destruct Ev as [Hlen Hne].
  rewrite Ea in Hlen, Hne. rewrite <- concat_map in Hlen, Hne.
  set (simple := map (fun doc => Tokenizers.SimpleTokenizer word_tokenize
                                   stopWords (lower doc)) docs) in *.
  assert (Hs : concat simple <> []).
  { intros Hc. rewrite Hc in Hne. apply Hne. reflexivity. }
  destruct (vocabulary_of_nonempty simple Hs) as [nsv Hnsv].
  rewrite Hnsv. simpl. exists nsv. split; [reflexivity|].
  apply vocabulary_of_length in Hnsv. destruct Hnsv as [Hl _].
  rewrite Hlen, Hl. apply nodup_map_length.
Qed.

(** One document of two tokens that stem to the same string: both fits
    return, with vocabularies of sizes 1 and 2. *)
Lemma C6_stemmed_vocabulary_no_larger_witness :
  let word_tokenize := fun _ : string => ["cars"; "car"] in
  exists ns_vocabulary,
    CountVectorizer.vocabulary_
      (CountVectorizer.ns_preprocessor word_tokenize []) ["Cars car"] =
      Some ns_vocabulary /\
    length ["car"] <= length ns_vocabulary.
Proof.
  intros word_tokenize.
  apply (C6_stemmed_vocabulary_no_larger word_tokenize Snowball.stem []
           ["Cars car"] ["car"]).
  - intros doc t _ [Ht|[Ht|[]]]; subst t; reflexivity.
  - reflexivity.
Defined.

(** ** Weighting and row normalization *)

Section Weighting.

Import Tfidf.
Local Open Scope R_scope.















End Weighting.






(** ** The stemmer *)









